(** * tg_contacts: Telegram contacts export to CSV / VCF

    A shallow embedding of [cli.py] and the properties of its phone
    normaliser ([normalize_phone]) and of the conversion loop of [main].

    Modelling choices.
    - A Python [str] is a sequence of Unicode code points: [pystr := list N].
      Literals are written [str "..."].
    - A value read from a contact record is a string or [None] (JSON null);
      a key may also be absent from the record.
    - [COUNTRY_CODES] is the module-level dict, a [gmap]; [seen_phones] is
      a [gset].
    - The output file is the sequence of calls made on it
      ([writer.writerow(row)] and [out.write(text)]), in order.
    - Terminal output (banner, colours, progress bar, printed summary) is
      not modelled; the counters that the summary prints are. *)

From Stdlib Require Import String Ascii NArith.
From stdpp Require Import base option list countable gmap.

(** ** Python strings *)

Definition pystr := list N.

Definition str (s : string) : pystr :=
  map N_of_ascii (list_ascii_of_string s).
Arguments str s%_string.

(** [str.isspace] on one code point, the test [str.strip()] applies at both
    ends of the string. *)
Definition isspace (c : N) : bool :=
  ((9 <=? c) && (c <=? 13) || (28 <=? c) && (c <=? 32)
   || (c =? 133) || (c =? 160) || (c =? 5760)
   || (8192 <=? c) && (c <=? 8202)
   || (c =? 8232) || (c =? 8233) || (c =? 8239) || (c =? 8287)
   || (c =? 12288))%N.

Fixpoint lstrip (s : pystr) : pystr :=
  match s with
  | [] => []
  | c :: s' => if isspace c then lstrip s' else s
  end.

Fixpoint rstrip (s : pystr) : pystr :=
  match s with
  | [] => []
  | c :: s' =>
      match rstrip s' with
      | [] => if isspace c then [] else [c]
      | r => c :: r
      end
  end.

(** [s.strip()] *)
Definition strip (s : pystr) : pystr := rstrip (lstrip s).

(** [s.startswith(prefix)] *)
Fixpoint startswith (s prefix : pystr) {struct prefix} : bool :=
  match prefix, s with
  | [], _ => true
  | _ :: _, [] => false
  | p :: prefix', c :: s' => (c =? p)%N && startswith s' prefix'
  end.

(** ** Values of contact fields *)

Inductive pyval :=
  | PNone
  | PStr (s : pystr).

#[global] Instance pyval_eq_dec : EqDecision pyval.
Proof. solve_decision. Defined.

#[global] Instance pyval_countable : Countable pyval.
Proof.
  refine (inj_countable'
            (fun v => match v with PNone => None | PStr s => Some s end)
            (fun o => match o with None => PNone | Some s => PStr s end) _).
  by intros [].
Defined.

(** ** Phone normalisation *)

Definition COUNTRY_CODES : gmap pystr pystr :=
  {[ str "KE" := str "254" ]}.

(** Lines 44-46: the [00] prefix becomes [+]. *)
Definition rule_00 (phone : pystr) : pystr * bool :=
  if startswith phone (str "00")
  then (str "+" ++ drop 2 phone, true)
  else (phone, false).

(** Lines 51-61: the [if / elif / elif] chain for a country code [cc]. *)
Definition country_rules (cc phone : pystr) : pystr * bool :=
  if startswith phone (str "0") && (9 <=? length phone) then
    (str "+" ++ cc ++ drop 1 phone, true)
  else if startswith phone cc && negb (startswith phone (str "+")) then
    (str "+" ++ phone, true)
  else if startswith phone (str "7") && (9 <=? length phone) then
    (str "+" ++ cc ++ phone, true)
  else
    (phone, false).

(** [country in COUNTRY_CODES], then [COUNTRY_CODES[country]];
    [country] is [None] when no [--country] was given. *)
Definition country_code (country : option pystr) : option pystr :=
  country ≫= (COUNTRY_CODES !!.).

Definition normalize_phone (phone : pyval) (country : option pystr)
  : pyval * bool * bool :=
  match phone with
  | PNone => (PNone, false, false)
  | PStr [] => (PStr [], false, false)
  | PStr p =>
      let phone := strip p in
      let '(phone, normalized_00) := rule_00 phone in
      let '(phone, normalized_country) :=
        match country_code country with
        | Some cc => country_rules cc phone
        | None => (phone, false)
        end in
      (PStr phone, normalized_00, normalized_country)
  end.

(** ** Command-line options read by the conversion *)

Inductive name_mode_t := First | Last | Both.
Inductive dedupe_t := Phone.
Inductive format_t := Csv | Vcf.

Record args := {
  name_mode : name_mode_t;      (* --name-mode, default both *)
  country : option pystr;       (* --country *)
  dedupe : option dedupe_t;     (* --dedupe, choices: phone *)
  format : format_t             (* --format, default csv *)
}.

(** [args.name_mode in ("first", "both")] and
    [args.name_mode in ("last", "both")] *)
Definition shows_first (m : name_mode_t) : bool :=
  match m with First | Both => true | Last => false end.
Definition shows_last (m : name_mode_t) : bool :=
  match m with Last | Both => true | First => false end.

(** ** The output file *)

Inductive file_op :=
  | writerow (row : list pyval)     (* writer.writerow(row) *)
  | write (text : pystr).           (* out.write(text) *)

Definition nl : pystr := [10%N].

(** [f"{v}"] *)
Definition fmt (v : pyval) : pystr :=
  match v with
  | PNone => str "None"
  | PStr s => s
  end.

(** Lines 115-121 *)
Definition headers (m : name_mode_t) : list pyval :=
  (if shows_first m then [PStr (str "First Name")] else [])
  ++ (if shows_last m then [PStr (str "Last Name")] else [])
  ++ [PStr (str "Phone")].

(** Lines 142-148 *)
Definition csv_row (m : name_mode_t) (first last phone : pyval)
  : list pyval :=
  (if shows_first m then [first] else [])
  ++ (if shows_last m then [last] else [])
  ++ [phone].

(** Line 154: [f"FN:{first} {last}".strip() + "\n"] *)
Definition fn_line (first last : pyval) : pystr :=
  strip (str "FN:" ++ fmt first ++ str " " ++ fmt last) ++ nl.

(** Lines 151-156 *)
Definition vcard (first last phone : pyval) : list file_op :=
  [ write (str "BEGIN:VCARD" ++ nl);
    write (str "VERSION:3.0" ++ nl);
    write (str "N:" ++ fmt last ++ str ";" ++ fmt first ++ str ";;;" ++ nl);
    write (fn_line first last);
    write (str "TEL;TYPE=CELL:" ++ fmt phone ++ nl);
    write (str "END:VCARD" ++ nl ++ nl) ].

(** Lines 141-156 *)
Definition emit (a : args) (first last phone : pyval) : list file_op :=
  match format a with
  | Csv => [writerow (csv_row (name_mode a) first last phone)]
  | Vcf => vcard first last phone
  end.

(** ** The conversion loop *)

(** A contact record: the dict of one element of [contacts.list]. *)
Abbreviation contact := (gmap pystr pyval).

(** [c.get(key, "")] *)
Definition get (c : contact) (key : pystr) : pyval :=
  default (PStr []) (c !! key).

(** The variables of [main] that the loop updates, and the file. *)
Record state := {
  seen_phones : gset pyval;
  written : nat;
  dupes : nat;
  normalized_00 : nat;
  normalized_country : nat;
  out : list file_op
}.

(** Lines 104-124: the counters at zero, the file just opened, with the
    header row in it for CSV. *)
Definition init (a : args) : state :=
  {| seen_phones := ∅; written := 0; dupes := 0;
     normalized_00 := 0; normalized_country := 0;
     out := match format a with
            | Csv => [writerow (headers (name_mode a))]
            | Vcf => []
            end |}.

(** Lines 127-158: one iteration. The [continue] of line 138 is the first
    branch, which returns without emitting. *)
Definition loop_body (a : args) (st : state) (c : contact) : state :=
  let first := get c (str "first_name") in
  let last := get c (str "last_name") in
  let phone_raw := get c (str "phone_number") in
  let '(phone, n00, ncty) := normalize_phone phone_raw (country a) in
  let count_00 := normalized_00 st + Nat.b2n n00 in
  let count_country := normalized_country st + Nat.b2n ncty in
  match dedupe a with
  | Some Phone =>
      if decide (phone ∈ seen_phones st) then
        {| seen_phones := seen_phones st; written := written st;
           dupes := dupes st + 1;
           normalized_00 := count_00; normalized_country := count_country;
           out := out st |}
      else
        {| seen_phones := {[phone]} ∪ seen_phones st;
           written := written st + 1; dupes := dupes st;
           normalized_00 := count_00; normalized_country := count_country;
           out := out st ++ emit a first last phone |}
  | None =>
      {| seen_phones := seen_phones st;
         written := written st + 1; dupes := dupes st;
         normalized_00 := count_00; normalized_country := count_country;
         out := out st ++ emit a first last phone |}
  end.

(** Lines 104-158: [for i, c in enumerate(contacts, 1)]. *)
Definition main_loop (a : args) (contacts : list contact) : state :=
  fold_left (loop_body a) contacts (init a).

(** ** The parsed input document and [main] *)

#[local] Set Warnings "-register-all".
Inductive json :=
  | JNull
  | JBool (b : bool)
  | JNum                                  (* an int or a float *)
  | JStr (s : pystr)
  | JArr (elements : list json)
  | JObj (items : list (pystr * json)).   (* the items of the dict *)

Inductive exn := KeyError | TypeError.

Fixpoint dict_get (key : pystr) (items : list (pystr * json))
  : option json :=
  match items with
  | [] => None
  | (k, v) :: items' => if decide (k = key) then Some v else dict_get key items'
  end.

(** [obj[key]] for a [str] key: only a dict can be indexed by a string. *)
Definition getitem (obj : json) (key : pystr) : exn + json :=
  match obj with
  | JObj items =>
      match dict_get key items with
      | Some v => inr v
      | None => inl KeyError
      end
  | _ => inl TypeError
  end.

(** Line 97: [data["contacts"]["list"]] *)
Definition contacts_list (data : json) : exn + json :=
  match getitem data (str "contacts") with
  | inr inner => getitem inner (str "list")
  | inl e => inl e
  end.

(** The input data model: [contacts.list] is an array of objects whose
    [first_name], [last_name] and [phone_number], when present, are strings
    or null. The other keys of a record are never read. *)
Definition as_field (key : pystr) (items : list (pystr * json))
  : option contact :=
  match dict_get key items with
  | None => Some ∅
  | Some JNull => Some {[ key := PNone ]}
  | Some (JStr s) => Some {[ key := PStr s ]}
  | Some _ => None
  end.

Definition as_contact (j : json) : option contact :=
  match j with
  | JObj items =>
      f ← as_field (str "first_name") items;
      l ← as_field (str "last_name") items;
      p ← as_field (str "phone_number") items;
      Some (f ∪ l ∪ p)
  | _ => None
  end.

Definition as_contacts (j : json) : option (list contact) :=
  match j with
  | JArr elements => mapM as_contact elements
  | _ => None
  end.

Inductive io :=
  | open_out                 (* open(output, "w", ...): creates or truncates *)
  | file (op : file_op)
  | close_out.

Inductive outcome :=
  | Exit (status : nat)                    (* sys.exit(status) *)
  | Raised (e : exn)                       (* the exception leaves main *)
  | Complete (total : nat) (st : state)    (* the summary is printed *)
  | OutsideDataModel.

(** [main], from line 89 on. [input] is the parsed content of the input
    file, [None] when the path does not exist. The trace lists what happens
    to the output file. A [contacts.list] outside the input data model
    ([OutsideDataModel]) is not followed further. *)
Definition main (a : args) (input : option json) : list io * outcome :=
  match input with
  | None => ([], Exit 1)
  | Some data =>
      match contacts_list data with
      | inl KeyError => ([], Exit 1)
      | inl e => ([], Raised e)
      | inr found =>
          match as_contacts found with
          | None => ([], OutsideDataModel)
          | Some contacts =>
              let st := main_loop a contacts in
              (open_out :: map file (out st) ++ [close_out],
               Complete (length contacts) st)
          end
      end
  end.

(** ** Vocabulary for the properties of the loop *)

(** The normalised phone of a contact, the key of [seen_phones]. *)
Definition phone_of (a : args) (c : contact) : pyval :=
  (normalize_phone (get c (str "phone_number")) (country a)).1.1.

(** What one iteration appends to the file when it writes the contact. *)
Definition emit_contact (a : args) (c : contact) : list file_op :=
  emit a (get c (str "first_name")) (get c (str "last_name")) (phone_of a c).

(** The CSV data row of a contact. *)
Definition row_of (a : args) (c : contact) : list pyval :=
  csv_row (name_mode a) (get c (str "first_name")) (get c (str "last_name"))
    (phone_of a c).

(** The contact is written: one more in [written], its record appended. *)
Definition is_written (a : args) (c : contact) (s s' : state) : Prop :=
  written s' = written s + 1 ∧ dupes s' = dupes s
  ∧ out s' = out s ++ emit_contact a c.

(** The contact is dropped as a duplicate: one more in [dupes], nothing
    appended. *)
Definition is_duplicate (s s' : state) : Prop :=
  written s' = written s ∧ dupes s' = dupes s + 1 ∧ out s' = out s.

#[global] Instance file_op_eq_dec : EqDecision file_op.
Proof. solve_decision. Defined.

(** The vCard blocks of a file: one per [BEGIN:VCARD] line written. *)
Definition count_blocks (ops : list file_op) : nat :=
  length (filter (λ op, op = write (str "BEGIN:VCARD" ++ nl)) ops).

(** The document has the shape [{"contacts": {"list": ...}}]. *)
Definition has_contacts_list (data : json) : Prop :=
  ∃ items inner v,
    data = JObj items
    ∧ dict_get (str "contacts") items = Some (JObj inner)
    ∧ dict_get (str "list") inner = Some v.

(** The flags that [normalize_phone] returns for a contact, which the loop
    adds to [normalized_00] and [normalized_country]. *)
Definition flag_00 (a : args) (c : contact) : bool :=
  (normalize_phone (get c (str "phone_number")) (country a)).1.2.
Definition flag_country (a : args) (c : contact) : bool :=
  (normalize_phone (get c (str "phone_number")) (country a)).2.

(** The same options without [--dedupe]. *)
Definition no_dedupe (a : args) : args :=
  {| name_mode := name_mode a; country := country a;
     dedupe := None; format := format a |}.


(** ** The country rules as the specification lists them

    Section 4.1 step 4 names the rules (a), (b), (c) and (d) "no rule", to
    be tried in this order on the string that steps 2 and 3 produced.
    [spec_selected] says which one is selected: a rule is selected when its
    own condition holds and the condition of no earlier rule does. *)

Inductive spec_rule :=
  | LeadingZero              (* (a) *)
  | BareCountryCode          (* (b) *)
  | BareSubscriberNumber     (* (c) *)
  | NoRule.                  (* (d) *)

Definition cond_a (s : pystr) : Prop :=
  (∃ rest, s = str "0" ++ rest) ∧ 9 ≤ length s.
Definition cond_b (cc s : pystr) : Prop :=
  (∃ rest, s = cc ++ rest) ∧ ¬ (∃ rest, s = str "+" ++ rest).
Definition cond_c (s : pystr) : Prop :=
  (∃ rest, s = str "7" ++ rest) ∧ 9 ≤ length s.

Definition spec_selected (cc s : pystr) (r : spec_rule) : Prop :=
  match r with
  | LeadingZero => cond_a s
  | BareCountryCode => ¬ cond_a s ∧ cond_b cc s
  | BareSubscriberNumber => ¬ cond_a s ∧ ¬ cond_b cc s ∧ cond_c s
  | NoRule => ¬ cond_a s ∧ ¬ cond_b cc s ∧ ¬ cond_c s
  end.

Definition spec_result (cc s : pystr) (r : spec_rule) : pystr :=
  match r with
  | LeadingZero => str "+" ++ cc ++ drop 1 s
  | BareCountryCode => str "+" ++ s
  | BareSubscriberNumber => str "+" ++ cc ++ s
  | NoRule => s
  end.

Definition spec_fires (r : spec_rule) : bool :=
  match r with NoRule => false | _ => true end.

(** The string that step 4 inspects: the input trimmed, then the [00] rule. *)
Definition after_step_3 (p : pystr) : pystr := (rule_00 (strip p)).1.

(** * Properties *)

(** ** Strings *)

#[local] Arguments isspace : simpl never.
#[local] Set Warnings "-clear-no-such-hyp".

Lemma startswith_prefix (s prefix : pystr) :
  startswith s prefix = true ↔ ∃ rest, s = prefix ++ rest.
Proof.
  revert s. induction prefix as [|x prefix IH]; intros s; simpl.
  - split; [by exists s | done].
  - destruct s as [|c s].
    + split; [done | by intros [? ?]].
    + rewrite andb_true_iff, N.eqb_eq, IH. split.
      * intros [-> [rest ->]]. eauto.
      * intros [rest [= -> ->]]. eauto.
Qed.

Lemma startswith_not_prefix (s prefix : pystr) :
  startswith s prefix = false ↔ ¬ ∃ rest, s = prefix ++ rest.
Proof.
  rewrite <- startswith_prefix. destruct (startswith s prefix); naive_solver.
Qed.

Lemma rstrip_rstrip (s : pystr) : rstrip (rstrip s) = rstrip s.
Proof.
  induction s as [|c s IH]; [done|]. simpl.
  destruct (rstrip s) as [|x r] eqn:E.
  - destruct (isspace c) eqn:Ec; simpl; [done | by rewrite Ec].
  - change (rstrip (c :: x :: r)) with
      (match rstrip (x :: r) with
       | [] => if isspace c then [] else [c]
       | r' => c :: r'
       end).
    by rewrite IH.
Qed.

Lemma rstrip_tail (c : N) (s : pystr) :
  rstrip (c :: s) = c :: s → rstrip s = s.
Proof.
  simpl. destruct (rstrip s) as [|x r] eqn:E.
  - destruct (isspace c); [done|]. by intros [= <-].
  - by intros [= <-].
Qed.

Lemma rstrip_drop (k : nat) (s : pystr) :
  rstrip s = s → rstrip (drop k s) = drop k s.
Proof.
  revert s. induction k as [|k IH]; intros s H; [by rewrite drop_0|].
  destruct s as [|c s]; [done|]. simpl. eauto using rstrip_tail.
Qed.

Lemma rstrip_cons (c : N) (s : pystr) :
  rstrip s = s → s ≠ [] → rstrip (c :: s) = c :: s.
Proof. intros H Hne. simpl. rewrite H. by destruct s. Qed.

Lemma rstrip_app (a s : pystr) :
  rstrip s = s → s ≠ [] → rstrip (a ++ s) = a ++ s.
Proof.
  intros H Hne. induction a as [|c a IH]; [done|].
  simpl app. apply rstrip_cons; [done|]. by destruct a, s.
Qed.

Lemma rstrip_plus (s : pystr) :
  rstrip s = s → rstrip (str "+" ++ s) = str "+" ++ s.
Proof.
  intros H. destruct s as [|c s]; [done|]. by apply rstrip_app.
Qed.

Lemma lstrip_strip (s : pystr) : lstrip (strip s) = strip s.
Proof.
  unfold strip. induction s as [|c s IH]; [done|]. simpl.
  destruct (isspace c) eqn:Ec; [done|]. simpl.
  destruct (rstrip s); rewrite ?Ec; simpl; by rewrite ?Ec.
Qed.

Lemma rstrip_strip (s : pystr) : rstrip (strip s) = strip s.
Proof. apply rstrip_rstrip. Qed.

Lemma strip_fixed (s : pystr) :
  lstrip s = s → rstrip s = s → strip s = s.
Proof. unfold strip. by intros -> ->. Qed.

Lemma strip_strip (s : pystr) : strip (strip s) = strip s.
Proof. apply strip_fixed; [apply lstrip_strip | apply rstrip_strip]. Qed.

(** ** The steps of [normalize_phone] *)

Lemma str_plus : str "+" = [43%N].
Proof. reflexivity. Qed.

Lemma rule_00_plus (r : pystr) : rule_00 (str "+" ++ r) = (str "+" ++ r, false).
Proof. reflexivity. Qed.

Lemma country_rules_plus (cc r : pystr) :
  country_rules cc (str "+" ++ r) = (str "+" ++ r, false).
Proof.
  unfold country_rules. rewrite str_plus. simpl.
  by rewrite andb_false_r.
Qed.

(** Either the [00] rule leaves the string alone or its result starts with
    [+]; trailing whitespace does not appear. *)
Lemma rule_00_cases (s : pystr) :
  rstrip s = s →
  rule_00 s = (s, false)
  ∨ ∃ r, rule_00 s = (str "+" ++ r, true) ∧ rstrip r = r.
Proof.
  intros R. unfold rule_00. destruct (startswith s (str "00")); [|by left].
  right. exists (drop 2 s). split; [done|]. by apply rstrip_drop.
Qed.

Lemma country_rules_cases (cc s : pystr) :
  rstrip s = s →
  country_rules cc s = (s, false)
  ∨ ∃ r, country_rules cc s = (str "+" ++ r, true) ∧ rstrip r = r.
Proof.
  intros R. unfold country_rules.
  destruct (startswith s (str "0") && (9 <=? length s)) eqn:Ea.
  { right. exists (cc ++ drop 1 s). split; [done|].
    apply andb_true_iff in Ea as [_ Hlen%Nat.leb_le].
    apply rstrip_app; [by apply rstrip_drop|].
    intros E%(f_equal length). rewrite length_drop in E. simpl in E. lia. }
  destruct (startswith s cc && negb (startswith s (str "+"))) eqn:Eb.
  { right. by exists s. }
  destruct (startswith s (str "7") && (9 <=? length s)) eqn:Ec; [|by left].
  right. exists (cc ++ s). split; [done|].
  apply andb_true_iff in Ec as [_ Hlen%Nat.leb_le].
  apply rstrip_app; [done|]. intros ->. simpl in Hlen. lia.
Qed.

Lemma country_code_KE (c : option pystr) (cc : pystr) :
  country_code c = Some cc → c = Some (str "KE") ∧ cc = str "254".
Proof.
  destruct c as [k|]; [|done]. unfold country_code, COUNTRY_CODES. simpl.
  intros [-> ->]%lookup_singleton_Some. done.
Qed.

(** [normalize_phone] on a string, step by step. The early return of
    line 38 agrees with the steps: nothing fires on the empty string. *)
Lemma normalize_phone_steps (p : pystr) (c : option pystr) :
  normalize_phone (PStr p) c =
  (PStr match country_code c with
        | Some cc => (country_rules cc (after_step_3 p)).1
        | None => after_step_3 p
        end,
   (rule_00 (strip p)).2,
   match country_code c with
   | Some cc => (country_rules cc (after_step_3 p)).2
   | None => false
   end).
Proof.
  destruct p as [|x p].
  - destruct (country_code c) as [cc|] eqn:E; [|done].
    by apply country_code_KE in E as [_ ->].
  - unfold normalize_phone, after_step_3.
    destruct (rule_00 (strip (x :: p))) as [s f00]. simpl.
    destruct (country_code c) as [cc|]; [|done].
    by destruct (country_rules cc s).
Qed.

Lemma normalize_phone_plus (r : pystr) (c : option pystr) :
  rstrip r = r →
  normalize_phone (PStr (str "+" ++ r)) c = (PStr (str "+" ++ r), false, false).
Proof.
  intros R. rewrite normalize_phone_steps. unfold after_step_3.
  rewrite strip_fixed; [|done|by apply rstrip_plus].
  rewrite rule_00_plus. cbn [fst snd].
  destruct (country_code c); [|done]. by rewrite country_rules_plus.
Qed.

Lemma normalize_phone_no_rule (s : pystr) (c : option pystr) :
  lstrip s = s → rstrip s = s →
  rule_00 s = (s, false) →
  (∀ cc, country_code c = Some cc → country_rules cc s = (s, false)) →
  normalize_phone (PStr s) c = (PStr s, false, false).
Proof.
  intros L R H00 Hcc. rewrite normalize_phone_steps. unfold after_step_3.
  rewrite strip_fixed by done. rewrite H00. cbn [fst snd].
  destruct (country_code c) as [cc|]; [|done]. by rewrite Hcc.
Qed.

(** The conditions of the specification against the tests of the code. *)

Lemma cond_a_test (s : pystr) :
  startswith s (str "0") && (9 <=? length s) = true ↔ cond_a s.
Proof.
  unfold cond_a. by rewrite andb_true_iff, startswith_prefix, Nat.leb_le.
Qed.

Lemma cond_b_test (cc s : pystr) :
  startswith s cc && negb (startswith s (str "+")) = true ↔ cond_b cc s.
Proof.
  unfold cond_b.
  by rewrite andb_true_iff, negb_true_iff, startswith_prefix,
    startswith_not_prefix.
Qed.

Lemma cond_c_test (s : pystr) :
  startswith s (str "7") && (9 <=? length s) = true ↔ cond_c s.
Proof.
  unfold cond_c. by rewrite andb_true_iff, startswith_prefix, Nat.leb_le.
Qed.

Lemma spec_selected_country_rules (cc s : pystr) (r : spec_rule) :
  spec_selected cc s r →
  country_rules cc s = (spec_result cc s r, spec_fires r).
Proof.
  unfold country_rules.
  pose proof (cond_a_test s) as Ha.
  pose proof (cond_b_test cc s) as Hb.
  pose proof (cond_c_test s) as Hc.
  destruct (startswith s (str "0") && (9 <=? length s));
    destruct (startswith s cc && negb (startswith s (str "+")));
    destruct (startswith s (str "7") && (9 <=? length s));
    destruct r; simpl; intuition (done || congruence).
Qed.

Lemma spec_selected_exists (cc s : pystr) : ∃ r, spec_selected cc s r.
Proof.
  pose proof (cond_a_test s) as Ha.
  pose proof (cond_b_test cc s) as Hb.
  pose proof (cond_c_test s) as Hc.
  destruct (startswith s (str "0") && (9 <=? length s));
    [exists LeadingZero; simpl; tauto|].
  destruct (startswith s cc && negb (startswith s (str "+")));
    [exists BareCountryCode; simpl; intuition done|].
  destruct (startswith s (str "7") && (9 <=? length s));
    [exists BareSubscriberNumber | exists NoRule]; simpl; intuition done.
Qed.

Lemma spec_selected_unique (cc s : pystr) (r r' : spec_rule) :
  spec_selected cc s r → spec_selected cc s r' → r = r'.
Proof. destruct r, r'; simpl; tauto. Qed.

(** ** Claims about [normalize_phone] *)

(** C2. For every phone string and every country of the table, with [cc]
    its calling code, exactly one of the rules (a), (b), (c), "no rule" is
    selected on the string that steps 2 and 3 produced, the first in the
    listed order whose condition holds, and [normalize_phone] returns the
    result of that rule and the flag of that rule: (a) gives [+ cc] and the
    rest after the leading zero, (b) gives [+] and the string, (c) gives
    [+ cc] and the string. In particular [254712345678] and [712345678]
    both give [(+254712345678, false, true)] for [KE]. *)
Theorem normalize_phone_first_matching_rule (p c cc : pystr) :
  COUNTRY_CODES !! c = Some cc →
  (∃ r, spec_selected cc (after_step_3 p) r
        ∧ (∀ r', spec_selected cc (after_step_3 p) r' → r' = r)
        ∧ normalize_phone (PStr p) (Some c)
          = (PStr (spec_result cc (after_step_3 p) r),
             (rule_00 (strip p)).2, spec_fires r))
  ∧ normalize_phone (PStr (str "254712345678")) (Some (str "KE"))
    = (PStr (str "+254712345678"), false, true)
  ∧ normalize_phone (PStr (str "712345678")) (Some (str "KE"))
    = (PStr (str "+254712345678"), false, true).
Proof.
  intros Hcc. split; [|by vm_compute].
  destruct (spec_selected_exists cc (after_step_3 p)) as [r Hr].
  exists r. split; [done|]. split; [eauto using spec_selected_unique|].
  rewrite normalize_phone_steps. unfold country_code. simpl. rewrite Hcc.
  by rewrite (spec_selected_country_rules _ _ _ Hr).
Qed.

Lemma normalize_phone_first_matching_rule_witness :
  COUNTRY_CODES !! str "KE" = Some (str "254")
  ∧ ∃ r, spec_selected (str "254") (after_step_3 (str "0712345678")) r
         ∧ normalize_phone (PStr (str "0712345678")) (Some (str "KE"))
           = (PStr (spec_result (str "254")
                      (after_step_3 (str "0712345678")) r),
              (rule_00 (strip (str "0712345678"))).2, spec_fires r).
Proof.
  assert (H : COUNTRY_CODES !! str "KE" = Some (str "254"))
    by (vm_compute; reflexivity).
  split; [exact H|].
  destruct (normalize_phone_first_matching_rule
              (str "0712345678") (str "KE") (str "254") H)
    as [[r [Hr [_ E]]] _].
  exists r. split; [exact Hr | exact E].
Defined.

(** C3. [normalize_phone] is idempotent: when [normalize_phone p c] returns
    [(q, f00, fcc)], [normalize_phone q c] returns [(q, false, false)]. *)
Theorem normalize_phone_idempotent
    (p q : pyval) (c : option pystr) (f00 fcc : bool) :
  normalize_phone p c = (q, f00, fcc) →
  normalize_phone q c = (q, false, false).
Proof.
  destruct p as [|p]; [by intros [= <- _ _]|].
  rewrite normalize_phone_steps. unfold after_step_3.
  pose proof (lstrip_strip p) as L. pose proof (rstrip_strip p) as R.
  destruct (rule_00_cases (strip p) R) as [E | (r & E & Rr)];
    rewrite E; cbn [fst snd].
  - destruct (country_code c) as [cc|] eqn:Ecc.
    + destruct (country_rules_cases cc (strip p) R) as [E' | (r & E' & Rr)];
        rewrite E'; cbn [fst snd]; intros [= <- _ _].
      * apply normalize_phone_no_rule; try done.
        intros cc' Hcc'. congruence.
      * by apply normalize_phone_plus.
    + intros [= <- _ _]. apply normalize_phone_no_rule; try done.
      intros cc. by rewrite Ecc.
  - intros H. assert (q = PStr (str "+" ++ r)) as ->.
    { destruct (country_code c); [rewrite country_rules_plus in H|];
        by injection H as <- _ _. }
    by apply normalize_phone_plus.
Qed.

Lemma normalize_phone_idempotent_witness :
  normalize_phone (PStr (str "0712345678")) (Some (str "KE"))
  = (PStr (str "+254712345678"), false, true)
  ∧ normalize_phone (PStr (str "+254712345678")) (Some (str "KE"))
    = (PStr (str "+254712345678"), false, false).
Proof.
  assert (H : normalize_phone (PStr (str "0712345678")) (Some (str "KE"))
              = (PStr (str "+254712345678"), false, true))
    by (vm_compute; reflexivity).
  split; [exact H|].
  exact (normalize_phone_idempotent _ _ _ _ _ H).
Defined.

(** C4, as stated, fails: a phone with surrounding whitespace that starts
    with no [00] and meets no country rule is not returned unchanged. *)
Lemma normalize_phone_changes_padded_input :
  let p := str " 123" in
  (¬ ∃ rest, p = str "00" ++ rest)
  ∧ country_code None = None
  ∧ normalize_phone (PStr p) None = (PStr (str "123"), false, false)
  ∧ normalize_phone (PStr p) None ≠ (PStr p, false, false).
Proof.
  repeat split; [|by vm_compute].
  apply startswith_not_prefix. reflexivity.
Qed.

(** C4, amended. For every phone string whose trimmed form does not start
    with [00] and meets no country rule (no country hint, a country absent
    from the table, or none of (a), (b), (c) matching the trimmed form),
    [normalize_phone] returns the trimmed form, which is the input itself
    when the input has no leading or trailing whitespace, and both flags
    false. *)
Theorem normalize_phone_no_rule_returns_trimmed
    (p : pystr) (c : option pystr) :
  (¬ ∃ rest, strip p = str "00" ++ rest) →
  (∀ cc, country_code c = Some cc → spec_selected cc (strip p) NoRule) →
  normalize_phone (PStr p) c = (PStr (strip p), false, false)
  ∧ (strip p = p → normalize_phone (PStr p) c = (PStr p, false, false)).
Proof.
  intros H00%startswith_not_prefix Hno.
  assert (normalize_phone (PStr p) c = (PStr (strip p), false, false)) as E.
  { rewrite normalize_phone_steps. unfold after_step_3, rule_00.
    rewrite H00. cbn [fst snd].
    destruct (country_code c) as [cc|]; [|done].
    by rewrite (spec_selected_country_rules _ _ _ (Hno cc eq_refl)). }
  split; [done|]. intros Hp. by rewrite Hp in E.
Qed.

Lemma normalize_phone_no_rule_returns_trimmed_witness :
  normalize_phone (PStr (str " 12345 ")) (Some (str "KE"))
  = (PStr (str "12345"), false, false).
Proof.
  change (str "12345") with (strip (str " 12345 ")).
  apply (normalize_phone_no_rule_returns_trimmed
           (str " 12345 ") (Some (str "KE"))).
  - apply startswith_not_prefix. reflexivity.
  - intros cc [_ ->]%country_code_KE. simpl.
    rewrite <- cond_a_test, <- cond_b_test, <- cond_c_test.
    vm_compute. intuition discriminate.
Defined.

(** C6, as stated, fails: the two flags are never both true. *)
Lemma normalize_phone_never_both_flags :
  ¬ ∃ p c q, normalize_phone p c = (q, true, true).
Proof.
  intros ([|p] & c & q & H); [done|].
  rewrite normalize_phone_steps in H. unfold after_step_3, rule_00 in H.
  destruct (startswith (strip p) (str "00")); [|done].
  cbn [fst snd] in H. destruct (country_code c); [|done].
  by rewrite country_rules_plus in H.
Qed.

(** C6, amended. The [00] rule is applied before the country rules, which
    inspect the string it produced. When the [00] rule fires that string
    starts with [+], so no country rule fires and the country flag is
    false; otherwise the country rules see the trimmed input. So
    [normalize("0041791234567", "KE")] is [(+41791234567, true, false)]. *)
Theorem normalize_phone_00_before_country (p : pystr) (c : option pystr) :
  normalize_phone (PStr p) c
  = (if startswith (strip p) (str "00")
     then (PStr (str "+" ++ drop 2 (strip p)), true, false)
     else match country_code c with
          | Some cc =>
              (PStr (country_rules cc (strip p)).1, false,
               (country_rules cc (strip p)).2)
          | None => (PStr (strip p), false, false)
          end)
  ∧ normalize_phone (PStr (str "0041791234567")) (Some (str "KE"))
    = (PStr (str "+41791234567"), true, false).
Proof.
  split; [|by vm_compute].
  rewrite normalize_phone_steps. unfold after_step_3, rule_00.
  destruct (startswith (strip p) (str "00")); cbn [fst snd];
    destruct (country_code c); try done.
  by rewrite country_rules_plus.
Qed.

(** C9. Whenever [normalize_phone] returns with one of its flags true, the
    returned phone is a string that starts with [+]. *)
Theorem normalize_phone_fired_starts_with_plus
    (p q : pyval) (c : option pystr) (f00 fcc : bool) :
  normalize_phone p c = (q, f00, fcc) →
  f00 = true ∨ fcc = true →
  ∃ rest, q = PStr (str "+" ++ rest).
Proof.
  destruct p as [|p]; [intros [= _ <- <-]; by intros [|]|].
  rewrite normalize_phone_steps. unfold after_step_3.
  pose proof (rstrip_strip p) as R.
  destruct (rule_00_cases (strip p) R) as [E | (r & E & _)];
    rewrite E; cbn [fst snd].
  - destruct (country_code c) as [cc|].
    + destruct (country_rules_cases cc (strip p) R) as [E' | (r & E' & _)];
        rewrite E'; cbn [fst snd]; intros [= <- <- <-]; [by intros [|]|eauto].
    + intros [= _ <- <-]. by intros [|].
  - intros H _. exists r.
    destruct (country_code c); [rewrite country_rules_plus in H|];
      by injection H as <- _ _.
Qed.

Lemma normalize_phone_fired_starts_with_plus_witness :
  ∃ rest, PStr (str "+41791234567") = PStr (str "+" ++ rest).
Proof.
  apply (normalize_phone_fired_starts_with_plus
           (PStr (str "0041791234567")) _ (Some (str "KE")) true false).
  - vm_compute. reflexivity.
  - left. reflexivity.
Defined.

(** ** The loop *)

Lemma main_loop_snoc (a : args) (before : list contact) (c : contact) :
  main_loop a (before ++ [c]) = loop_body a (main_loop a before) c.
Proof. unfold main_loop. by rewrite fold_left_app. Qed.

(** One iteration either writes the contact or drops it as a duplicate,
    and it is dropped exactly when deduplication is on and its normalised
    phone has been seen. *)
Lemma loop_body_cases (a : args) (st : state) (c : contact) :
  let st' := loop_body a st c in
  match dedupe a with
  | Some Phone =>
      if decide (phone_of a c ∈ seen_phones st)
      then is_duplicate st st' ∧ seen_phones st' = seen_phones st
      else is_written a c st st'
           ∧ seen_phones st' = {[phone_of a c]} ∪ seen_phones st
  | None => is_written a c st st' ∧ seen_phones st' = seen_phones st
  end.
Proof.
  unfold loop_body, is_written, is_duplicate, emit_contact, phone_of.
  destruct (normalize_phone _ _) as [[phone n00] ncty]. simpl.
  destruct (dedupe a) as [[]|]; [|done].
  by destruct (decide (phone ∈ seen_phones st)).
Qed.

Lemma is_written_not_duplicate (a : args) (c : contact) (s s' : state) :
  is_written a c s s' → ¬ is_duplicate s s'.
Proof. unfold is_written, is_duplicate. lia. Qed.

(** With deduplication on, [seen_phones] holds the normalised phones of
    all the contacts processed so far. *)
Lemma seen_phones_processed (a : args) (contacts : list contact) :
  dedupe a = Some Phone →
  seen_phones (main_loop a contacts) = list_to_set (phone_of a <$> contacts).
Proof.
  intros Hd. induction contacts as [|c before IH] using rev_ind; [done|].
  rewrite main_loop_snoc, fmap_app, list_to_set_app_L. simpl.
  pose proof (loop_body_cases a (main_loop a before) c) as H.
  rewrite Hd in H. simpl in H.
  destruct (decide (phone_of a c ∈ seen_phones (main_loop a before)));
    destruct H as [_ ->]; set_solver.
Qed.

(** The contacts written by a run: a subsequence [kept] of the input, in
    input order, whose records follow what was in the file before the
    loop. *)
Lemma main_loop_kept (a : args) (contacts : list contact) :
  let st := main_loop a contacts in
  ∃ kept,
    sublist kept contacts
    ∧ out st = out (init a) ++ kept ≫= emit_contact a
    ∧ written st = length kept
    ∧ written st + dupes st = length contacts
    ∧ match dedupe a with
      | Some Phone => NoDup (phone_of a <$> kept)
      | None => kept = contacts ∧ dupes st = 0
      end.
Proof.
  induction contacts as [|c before IH] using rev_ind.
  { exists []. simpl. rewrite app_nil_r.
    repeat split; try done. destruct (dedupe a) as [[]|]; [constructor|done]. }
  destruct IH as (kept & Hsub & Hout & Hw & Hsum & Hd).
  rewrite main_loop_snoc. cbn zeta.
  pose proof (loop_body_cases a (main_loop a before) c) as H. cbn zeta in H.
  set (s := main_loop a before) in *. set (s' := loop_body a s c) in *.
  assert (is_written a c s s' →
          sublist (kept ++ [c]) (before ++ [c])
          ∧ out s' = out (init a) ++ (kept ++ [c]) ≫= emit_contact a
          ∧ written s' = length (kept ++ [c])
          ∧ written s' + dupes s' = length (before ++ [c])) as Hwritten.
  { intros (Ew & Ed & Eo). rewrite !length_app. simpl.
    split; [by apply sublist_app|].
    split; [|lia]. rewrite Eo, Hout, bind_app. simpl.
    by rewrite app_nil_r, app_assoc. }
  destruct (dedupe a) as [[]|] eqn:Ededupe.
  - destruct (decide (phone_of a c ∈ seen_phones s)) as [Hin|Hnotin].
    + destruct H as [(Ew & Ed & Eo) _]. exists kept.
      rewrite length_app. simpl.
      split; [by apply sublist_inserts_r|].
      split; [by rewrite Eo|]. split; [lia|]. split; [lia|done].
    + destruct H as [Hwr _]. exists (kept ++ [c]).
      destruct (Hwritten Hwr) as (? & ? & ? & ?). repeat split; try done.
      rewrite fmap_app. apply NoDup_app. split; [done|].
      split; [|apply NoDup_singleton].
      intros x Hx ->%list_elem_of_singleton. apply Hnotin.
      unfold s. rewrite seen_phones_processed by done.
      apply elem_of_list_to_set.
      eapply elem_of_submseteq; [exact Hx|].
      by apply sublist_submseteq, fmap_sublist.
  - destruct H as [Hwr _]. destruct Hd as [-> Hd]. exists (before ++ [c]).
    destruct (Hwritten Hwr) as (? & ? & ? & ?). repeat split; try done.
    destruct Hwr as (_ & -> & _). done.
Qed.

(** ** The file written by the loop *)

Lemma strip_head (c : N) (s : pystr) :
  isspace c = false → ∃ t, strip (c :: s) = c :: t.
Proof.
  intros Hc. unfold strip. simpl. rewrite Hc. simpl.
  destruct (rstrip s) as [|x r]; [rewrite Hc|]; eauto.
Qed.

Lemma fn_line_head (first last : pyval) :
  ∃ t, fn_line first last = str "F" ++ t.
Proof.
  unfold fn_line.
  destruct (strip_head 70 (str "N:" ++ fmt first ++ str " " ++ fmt last))
    as [t Ht]; [done|].
  exists (t ++ nl). change (str "FN:" ++ ?x) with (70%N :: str "N:" ++ x).
  by rewrite Ht.
Qed.

Lemma count_blocks_app (ops ops' : list file_op) :
  count_blocks (ops ++ ops') = count_blocks ops + count_blocks ops'.
Proof. unfold count_blocks. by rewrite filter_app, length_app. Qed.

Lemma count_blocks_vcard (first last phone : pyval) :
  count_blocks (vcard first last phone) = 1.
Proof.
  unfold count_blocks, vcard.
  destruct (fn_line_head first last) as [t ->].
  rewrite filter_cons_True by done.
  rewrite !filter_cons_False, filter_nil; [done|..];
    intros H; vm_compute in H; discriminate H.
Qed.

Lemma count_blocks_vcards (a : args) (kept : list contact) :
  format a = Vcf → count_blocks (kept ≫= emit_contact a) = length kept.
Proof.
  intros Hf. induction kept as [|c kept IH]; [done|].
  change ((c :: kept) ≫= emit_contact a)
    with (emit_contact a c ++ kept ≫= emit_contact a).
  rewrite count_blocks_app, IH. unfold emit_contact, emit. rewrite Hf.
  by rewrite count_blocks_vcard.
Qed.

Lemma csv_rows (a : args) (kept : list contact) :
  format a = Csv →
  kept ≫= emit_contact a = (λ c, writerow (row_of a c)) <$> kept.
Proof.
  intros Hf. induction kept as [|c kept IH]; [done|].
  change ((c :: kept) ≫= emit_contact a)
    with (emit_contact a c ++ kept ≫= emit_contact a).
  rewrite IH. unfold emit_contact, emit, row_of. by rewrite Hf.
Qed.

(** ** Claims about the conversion *)

(** C1. In every run, every contact is either written exactly once or
    counted as a duplicate, never both and never neither. With
    [dedupe=phone], at completion [written + duplicates = total] and no two
    written contacts share their normalised phone; with [dedupe] off,
    [written = total] and [duplicates = 0]. The written contacts are the
    subsequence [kept] of the input whose records the file holds. *)
Theorem each_contact_written_or_duplicate
    (a : args) (contacts : list contact) :
  let st := main_loop a contacts in
  (∀ before c,
      let s := main_loop a before in
      let s' := main_loop a (before ++ [c]) in
      (is_written a c s s' ∨ is_duplicate s s')
      ∧ ¬ (is_written a c s s' ∧ is_duplicate s s'))
  ∧ ∃ kept,
      sublist kept contacts
      ∧ out st = out (init a) ++ kept ≫= emit_contact a
      ∧ written st = length kept
      ∧ match dedupe a with
        | Some Phone =>
            written st + dupes st = length contacts
            ∧ NoDup (phone_of a <$> kept)
        | None => written st = length contacts ∧ dupes st = 0
        end.
Proof.
  split.
  - intros before c. cbn zeta. rewrite main_loop_snoc.
    pose proof (loop_body_cases a (main_loop a before) c) as H.
    cbn zeta in H. split.
    + destruct (dedupe a) as [[]|]; [|by left; apply H].
      destruct (decide _); [right | left]; apply H.
    + intros [Hw Hd]. by eapply is_written_not_duplicate.
  - destruct (main_loop_kept a contacts) as (kept & Hs & Ho & Hw & Hsum & Hd).
    exists kept. split; [done|]. split; [done|]. split; [done|].
    destruct (dedupe a) as [[]|]; [done|]. destruct Hd as [_ Hd].
    split; [lia | done].
Qed.

(** C8. In CSV format the file starts with one header row, which is
    [First Name] when the name mode is first or both, then [Last Name] when
    it is last or both, then [Phone]; its column count is the number of
    enabled name columns plus one; the data rows of the written contacts
    follow it. In VCF format the file is the vCard blocks of the written
    contacts, and their number is [written]. *)
Theorem csv_header_vcf_blocks (a : args) (contacts : list contact) :
  let st := main_loop a contacts in
  headers First = [PStr (str "First Name"); PStr (str "Phone")]
  ∧ headers Last = [PStr (str "Last Name"); PStr (str "Phone")]
  ∧ headers Both = [PStr (str "First Name"); PStr (str "Last Name");
                    PStr (str "Phone")]
  ∧ length (headers (name_mode a))
    = Nat.b2n (shows_first (name_mode a))
      + Nat.b2n (shows_last (name_mode a)) + 1
  ∧ ∃ kept,
      sublist kept contacts
      ∧ written st = length kept
      ∧ match format a with
        | Csv =>
            out st = writerow (headers (name_mode a))
                     :: ((λ c, writerow (row_of a c)) <$> kept)
            ∧ Forall (λ c, length (row_of a c)
                           = length (headers (name_mode a))) kept
        | Vcf =>
            out st = kept ≫= (λ c, vcard (get c (str "first_name"))
                                      (get c (str "last_name"))
                                      (phone_of a c))
            ∧ count_blocks (out st) = written st
        end.
Proof.
  cbn zeta. do 3 (split; [done|]). split; [by destruct (name_mode a)|].
  destruct (main_loop_kept a contacts) as (kept & Hs & Ho & Hw & _).
  exists kept. split; [done|]. split; [done|].
  destruct (format a) eqn:Hf.
  - rewrite Ho, csv_rows by done. unfold init. simpl. rewrite Hf.
    split; [done|]. apply Forall_forall. intros c _.
    unfold row_of, csv_row, headers. by destruct (name_mode a).
  - rewrite Hw, Ho, count_blocks_app, count_blocks_vcards by done.
    unfold init. simpl. rewrite Hf. split; [|done]. simpl.
    clear -Hf. induction kept as [|c kept IH]; [done|].
    change ((c :: kept) ≫= emit_contact a)
      with (emit_contact a c ++ kept ≫= emit_contact a).
    rewrite IH. unfold emit_contact, emit. by rewrite Hf.
Qed.

(** C10. With [dedupe=phone], a contact whose phone normalises to the
    empty string is written when no earlier contact normalised to the
    empty string, and is counted as a duplicate and not written when one
    did. A record whose [phone_number] is missing or empty normalises to
    the empty string. *)
Theorem empty_phone_is_a_dedupe_key
    (a : args) (before : list contact) (c : contact) :
  dedupe a = Some Phone →
  phone_of a c = PStr [] →
  let s := main_loop a before in
  let s' := main_loop a (before ++ [c]) in
  (PStr [] ∉ phone_of a <$> before → is_written a c s s')
  ∧ (PStr [] ∈ phone_of a <$> before → is_duplicate s s')
  ∧ (∀ c' : contact,
        c' !! str "phone_number" = None
        ∨ c' !! str "phone_number" = Some (PStr []) →
        phone_of a c' = PStr []).
Proof.
  intros Hd Hc. cbn zeta. rewrite main_loop_snoc.
  pose proof (loop_body_cases a (main_loop a before) c) as H.
  cbn zeta in H. rewrite Hd, Hc, seen_phones_processed in H by done.
  destruct (decide _) as [Hin|Hnotin];
    rewrite elem_of_list_to_set in *; destruct H as [H _].
  - split; [done|]. split; [done|].
    intros c' [E|E]; unfold phone_of, get; by rewrite E.
  - split; [done|]. split; [done|].
    intros c' [E|E]; unfold phone_of, get; by rewrite E.
Qed.

Lemma empty_phone_is_a_dedupe_key_witness :
  let a := {| name_mode := Both; country := None;
              dedupe := Some Phone; format := Csv |} in
  let c : contact := {[ str "phone_number" := PStr [] ]} in
  is_duplicate (main_loop a [∅]) (main_loop a ([∅] ++ [c])).
Proof.
  intros a c.
  apply (empty_phone_is_a_dedupe_key a [∅] c);
    [reflexivity | vm_compute; reflexivity |].
  apply list_elem_of_fmap. exists ∅. split; [vm_compute; reflexivity|].
  apply list_elem_of_singleton. reflexivity.
Defined.

(** C5. The [FN] line of a contact without first name keeps the space of
    the template after the colon: the whole line is trimmed, not the name.
    The line is as the claim says when the last name is the empty one. *)
Theorem fn_line_keeps_space_without_first_name :
  let a := {| name_mode := Both; country := None;
              dedupe := None; format := Vcf |} in
  let c : contact := {[ str "last_name" := PStr (str "Doe") ]} in
  fn_line (PStr []) (PStr (str "Doe")) = str "FN: Doe" ++ nl
  ∧ fn_line (PStr []) (PStr (str "Doe")) ≠ str "FN:Doe" ++ nl
  ∧ fn_line (PStr (str "John")) (PStr []) = str "FN:John" ++ nl
  ∧ out (main_loop a [c])
    = [ write (str "BEGIN:VCARD" ++ nl);
        write (str "VERSION:3.0" ++ nl);
        write (str "N:Doe;;;;" ++ nl);
        write (str "FN: Doe" ++ nl);
        write (str "TEL;TYPE=CELL:" ++ nl);
        write (str "END:VCARD" ++ nl ++ nl) ].
Proof. cbn zeta. repeat split; by vm_compute. Qed.

(** ** Claims about [main] *)

Lemma contacts_list_found (data found : json) :
  contacts_list data = inr found → has_contacts_list data.
Proof.
  unfold contacts_list, getitem, has_contacts_list.
  destruct data as [| | | | |items]; try done.
  destruct (dict_get (str "contacts") items) as [inner|] eqn:E; [|done].
  destruct inner as [| | | | |inner]; try done.
  destruct (dict_get (str "list") inner) as [v|] eqn:E'; [|done].
  intros _. by exists items, inner, v.
Qed.

(** When the document has a contact list of the input data model, the
    output file is opened, receives what the loop writes, and is closed. *)
Lemma main_complete (a : args) (data found : json) (contacts : list contact) :
  contacts_list data = inr found →
  as_contacts found = Some contacts →
  main a (Some data)
  = (open_out :: (file <$> out (main_loop a contacts)) ++ [close_out],
     Complete (length contacts) (main_loop a contacts)).
Proof. intros E E'. unfold main. by rewrite E, E'. Qed.

(** C7. For every input document without the [contacts.list] structure,
    [main] ends in a fatal failure, [sys.exit(1)] or an uncaught
    [TypeError], and nothing has happened to the output file: it was not
    opened, so neither created nor truncated, and the loop wrote
    nothing. *)
Theorem missing_contacts_list_fails_before_output (a : args) (data : json) :
  ¬ has_contacts_list data →
  main a (Some data) = ([], Exit 1)
  ∨ main a (Some data) = ([], Raised TypeError).
Proof.
  intros Hno. unfold main.
  destruct (contacts_list data) as [[]|found] eqn:E; [by left | by right |].
  by apply contacts_list_found in E.
Qed.

Lemma missing_contacts_list_fails_before_output_witness :
  let a := {| name_mode := Both; country := None;
              dedupe := None; format := Csv |} in
  let data := JObj [(str "contacts", JObj [(str "about", JStr (str "x"))])] in
  main a (Some data) = ([], Exit 1).
Proof.
  intros a data.
  destruct (missing_contacts_list_fails_before_output a data) as [H|H].
  - intros (items & inner & v & [= <-] & Hc & Hl).
    vm_compute in Hc. injection Hc as <-. vm_compute in Hl. discriminate Hl.
  - exact H.
  - vm_compute in H. discriminate H.
Defined.

(** * Further properties of the code *)

(** ** [normalize_phone] *)

Lemma lstrip_head (c : N) (s : pystr) :
  isspace c = false → lstrip (c :: s) = c :: s.
Proof. intros Hc. simpl. by rewrite Hc. Qed.

Lemma rstrip_head (c : N) (s : pystr) :
  isspace c = false → rstrip (c :: s) = c :: rstrip s.
Proof. intros Hc. simpl. destruct (rstrip s); by rewrite ?Hc. Qed.

Lemma strip_rstrip_fixed (s : pystr) : strip s = s → rstrip s = s.
Proof. intros H. rewrite <- H at 1. rewrite rstrip_strip. done. Qed.

Lemma plus_differs (s r : pystr) :
  startswith s (str "+") = false → str "+" ++ r ≠ s.
Proof.
  intros H E. apply startswith_not_prefix in H. apply H. by exists r.
Qed.

Lemma other_head_not_plus (x : N) (prefix s : pystr) :
  x ≠ 43%N → startswith s (x :: prefix) = true →
  startswith s (str "+") = false.
Proof.
  intros Hx [rest ->]%startswith_prefix. simpl.
  by apply andb_false_iff; left; apply N.eqb_neq.
Qed.

(** The result of the country rules differs from their argument exactly
    when the flag is set. *)
Lemma country_rules_flag (cc s : pystr) :
  (country_rules cc s).2 = true ↔ (country_rules cc s).1 ≠ s.
Proof.
  unfold country_rules.
  destruct (startswith s (str "0") && (9 <=? length s)) eqn:Ea.
  { apply andb_true_iff in Ea as [Ea _]. split; [intros _|done].
    apply plus_differs. by eapply other_head_not_plus, Ea. }
  destruct (startswith s cc && negb (startswith s (str "+"))) eqn:Eb.
  { apply andb_true_iff in Eb as [_ Eb%negb_true_iff].
    split; [intros _|done]. by apply plus_differs. }
  destruct (startswith s (str "7") && (9 <=? length s)) eqn:Ec.
  { apply andb_true_iff in Ec as [Ec _]. split; [intros _|done].
    apply plus_differs. by eapply other_head_not_plus, Ec. }
  done.
Qed.

Lemma rule_00_flag (s : pystr) :
  (rule_00 s).2 = true ↔ (rule_00 s).1 ≠ s.
Proof.
  unfold rule_00. destruct (startswith s (str "00")) eqn:E; [|done].
  split; [intros _|done]. apply plus_differs.
  by eapply other_head_not_plus, E.
Qed.

(** Surrounding whitespace never matters: a phone and its trimmed form
    normalise alike, flags included. *)
Theorem normalize_phone_ignores_padding (p : pystr) (c : option pystr) :
  normalize_phone (PStr p) c = normalize_phone (PStr (strip p)) c.
Proof.
  rewrite !normalize_phone_steps. unfold after_step_3.
  by rewrite strip_strip.
Qed.

(** The phone returned for a string is a string without leading or trailing
    whitespace. *)
Theorem normalize_phone_result_trimmed (p : pystr) (c : option pystr) :
  ∃ q, (normalize_phone (PStr p) c).1.1 = PStr q ∧ strip q = q.
Proof.
  rewrite normalize_phone_steps. cbn [fst snd]. eexists. split; [done|].
  unfold after_step_3.
  pose proof (lstrip_strip p) as L. pose proof (rstrip_strip p) as R.
  assert (∀ r, rstrip r = r → strip (str "+" ++ r) = str "+" ++ r) as Hplus.
  { intros r Hr. apply strip_fixed; [done | by apply rstrip_plus]. }
  destruct (rule_00_cases (strip p) R) as [E | (r & E & Rr)];
    rewrite E; cbn [fst snd].
  - destruct (country_code c) as [cc|]; [|by apply strip_fixed].
    destruct (country_rules_cases cc (strip p) R) as [E' | (r & E' & Rr)];
      rewrite E'; cbn [fst snd]; [by apply strip_fixed | by apply Hplus].
  - destruct (country_code c); [rewrite country_rules_plus|]; by apply Hplus.
Qed.

(** The flags are accurate: one of them is set exactly when the returned
    phone differs from the trimmed input. *)
Theorem normalize_phone_flag_iff_changed (p : pystr) (c : option pystr) :
  (normalize_phone (PStr p) c).1.2 || (normalize_phone (PStr p) c).2 = true
  ↔ (normalize_phone (PStr p) c).1.1 ≠ PStr (strip p).
Proof.
  rewrite normalize_phone_steps. cbn [fst snd]. unfold after_step_3.
  pose proof (rule_00_flag (strip p)) as H00. unfold rule_00 in *.
  destruct (startswith (strip p) (str "00")) eqn:E; cbn [fst snd] in *.
  - split; [intros _|done].
    assert (str "+" ++ drop 2 (strip p) ≠ strip p) as Hne by by apply H00.
    destruct (country_code c); [rewrite country_rules_plus|];
      cbn [fst]; congruence.
  - destruct (country_code c) as [cc|]; [|done].
    rewrite orb_false_l, country_rules_flag. split; [congruence|].
    intros H E'. apply H. by rewrite E'.
Qed.

(** A phone already in international form, [+] first once trimmed, is
    returned trimmed with no flag, whatever the country. *)
Theorem normalize_phone_keeps_international
    (p rest : pystr) (c : option pystr) :
  strip p = str "+" ++ rest →
  normalize_phone (PStr p) c = (PStr (strip p), false, false).
Proof.
  intros H. rewrite normalize_phone_steps. unfold after_step_3.
  rewrite H, rule_00_plus. cbn [fst snd].
  destruct (country_code c); [|done]. by rewrite country_rules_plus.
Qed.

Lemma normalize_phone_keeps_international_witness :
  normalize_phone (PStr (str " +447911123456 ")) (Some (str "KE"))
  = (PStr (str "+447911123456"), false, false).
Proof.
  change (str "+447911123456") with (strip (str " +447911123456 ")).
  apply (normalize_phone_keeps_international _ (str "447911123456")).
  vm_compute. reflexivity.
Defined.

(** A country that is not a key of [COUNTRY_CODES], [ke] in lower case for
    instance, is ignored: the call behaves as without a country. *)
Theorem normalize_phone_unknown_country (p : pyval) (c : pystr) :
  c ≠ str "KE" →
  normalize_phone p (Some c) = normalize_phone p None.
Proof.
  intros Hc. unfold normalize_phone, country_code, COUNTRY_CODES. simpl.
  by rewrite lookup_singleton_ne.
Qed.

Lemma normalize_phone_unknown_country_witness :
  normalize_phone (PStr (str "0712345678")) (Some (str "ke"))
  = normalize_phone (PStr (str "0712345678")) None.
Proof.
  apply (normalize_phone_unknown_country _ (str "ke")).
  intros H. vm_compute in H. discriminate H.
Defined.

(** Normalisation rewrites the prefix only: what follows the first two
    characters of the trimmed input ends the returned phone unchanged. *)
Theorem normalize_phone_keeps_tail (p : pystr) (c : option pystr) :
  ∃ q, (normalize_phone (PStr p) c).1.1 = PStr q
       ∧ drop 2 (strip p) `suffix_of` q.
Proof.
  rewrite normalize_phone_steps. cbn [fst snd]. eexists. split; [done|].
  unfold after_step_3, rule_00.
  assert (drop 2 (strip p) `suffix_of` strip p) as Hs by apply suffix_drop.
  assert (drop 2 (strip p) `suffix_of` drop 1 (strip p)) as Hs1.
  { replace (drop 2 (strip p)) with (drop 1 (drop 1 (strip p)))
      by by rewrite drop_drop.
    apply suffix_drop. }
  destruct (startswith (strip p) (str "00")); cbn [fst snd].
  - destruct (country_code c); [rewrite country_rules_plus|];
      by apply suffix_app_r.
  - destruct (country_code c) as [cc|]; [|done]. unfold country_rules.
    repeat case_match; cbn [fst]; rewrite ?app_assoc;
      by (done || apply suffix_app_r).
Qed.

Lemma strip_prefixed (c : N) (pre d : pystr) :
  isspace c = false → strip d = d → d ≠ [] →
  strip (c :: pre ++ d) = c :: pre ++ d.
Proof.
  intros Hc Hd Hne. apply strip_fixed; [by apply lstrip_head|].
  apply (rstrip_app (c :: pre)); [by apply strip_rstrip_fixed | done].
Qed.

(** The usual spellings of a Kenyan mobile number agree: for a subscriber
    number [d] that starts with [7], has at least 9 characters and no
    surrounding whitespace, [0d], [254d], [d], [+254d] and [00254d] all
    normalise to [+254d] with country [KE]. *)
Theorem kenyan_spellings_agree (rest : pystr) :
  let d := str "7" ++ rest in
  let q := PStr (str "+254" ++ d) in
  let KE := Some (str "KE") in
  9 ≤ length d → strip d = d →
  normalize_phone (PStr (str "0" ++ d)) KE = (q, false, true)
  ∧ normalize_phone (PStr (str "254" ++ d)) KE = (q, false, true)
  ∧ normalize_phone (PStr d) KE = (q, false, true)
  ∧ normalize_phone (PStr (str "+254" ++ d)) KE = (q, false, false)
  ∧ normalize_phone (PStr (str "00254" ++ d)) KE = (q, true, false).
Proof.
  intros d q KE Hlen Hd.
  assert (d ≠ []) as Hne by done.
  assert (country_code KE = Some (str "254")) as Hcc by by vm_compute.
  assert ((9 <=? length d) = true) as Hlen' by by apply Nat.leb_le.
  assert ((9 <=? length (str "0" ++ d)) = true) as Hlen0.
  { apply Nat.leb_le. rewrite length_app. lia. }
  assert (strip (str "0" ++ d) = str "0" ++ d) as S0
    by by apply (strip_prefixed 48 [] d).
  assert (strip (str "254" ++ d) = str "254" ++ d) as S254
    by by apply (strip_prefixed 50 (str "54") d).
  assert (strip (str "+254" ++ d) = str "+254" ++ d) as Splus
    by by apply (strip_prefixed 43 (str "254") d).
  assert (strip (str "00254" ++ d) = str "00254" ++ d) as S00
    by by apply (strip_prefixed 48 (str "0254") d).
  assert (country_rules (str "254") (str "0" ++ d) = (str "+254" ++ d, true))
    as C0 by (unfold country_rules; by rewrite Hlen0).
  assert (country_rules (str "254") d = (str "+254" ++ d, true))
    as Cd by (unfold country_rules; by rewrite Hlen').
  rewrite !normalize_phone_steps, Hcc. unfold after_step_3.
  rewrite S0, S254, Splus, S00, Hd.
  change (rule_00 (str "0" ++ d)) with (str "0" ++ d, false).
  change (rule_00 (str "254" ++ d)) with (str "254" ++ d, false).
  change (rule_00 d) with (d, false).
  change (rule_00 (str "+254" ++ d)) with (str "+254" ++ d, false).
  change (rule_00 (str "00254" ++ d)) with (str "+254" ++ d, true).
  assert (country_rules (str "254") (str "+254" ++ d)
          = (str "+254" ++ d, false))
    as Cplus by exact (country_rules_plus (str "254") (str "254" ++ d)).
  cbn [fst snd]. by rewrite C0, Cd, Cplus.
Qed.

Lemma kenyan_spellings_agree_witness :
  normalize_phone (PStr (str "0712345678")) (Some (str "KE"))
  = (PStr (str "+254712345678"), false, true)
  ∧ normalize_phone (PStr (str "00254712345678")) (Some (str "KE"))
    = (PStr (str "+254712345678"), true, false).
Proof.
  destruct (kenyan_spellings_agree (str "12345678")) as (H0 & _ & _ & _ & H00).
  - vm_compute. lia.
  - vm_compute. reflexivity.
  - split; [exact H0 | exact H00].
Defined.

(** ** The conversion loop *)

Lemma sublist_mbind {A B} (f : A → list B) (l k : list A) :
  sublist l k → sublist (l ≫= f) (k ≫= f).
Proof.
  induction 1 as [|x l k _ IH|x l k _ IH]; [done|..]; rewrite ?bind_cons.
  - by apply sublist_app.
  - by apply sublist_inserts_l.
Qed.

Lemma sublist_same_length {A} (l k : list A) :
  sublist l k → length l = length k → l = k.
Proof.
  induction 1 as [|x l k _ IH|x l k Hs IH]; simpl; intros Hlen; [done|..].
  - f_equal. apply IH. lia.
  - apply sublist_length in Hs. lia.
Qed.

Lemma loop_body_counters (a : args) (st : state) (c : contact) :
  normalized_00 (loop_body a st c)
  = normalized_00 st + Nat.b2n (flag_00 a c)
  ∧ normalized_country (loop_body a st c)
    = normalized_country st + Nat.b2n (flag_country a c).
Proof.
  unfold loop_body, flag_00, flag_country.
  destruct (normalize_phone _ _) as [[phone n00] ncty]. simpl.
  destruct (dedupe a) as [[]|]; [|done].
  by destruct (decide (phone ∈ seen_phones st)).
Qed.

Lemma flags_exclusive (a : args) (c : contact) :
  Nat.b2n (flag_00 a c) + Nat.b2n (flag_country a c) ≤ 1.
Proof.
  unfold flag_00, flag_country.
  destruct (get c (str "phone_number")) as [|p]; [simpl; lia|].
  rewrite normalize_phone_steps. cbn [fst snd]. unfold after_step_3, rule_00.
  destruct (startswith (strip p) (str "00")); cbn [fst snd].
  - destruct (country_code (country a));
      [rewrite country_rules_plus|]; simpl; lia.
  - simpl. destruct (country_code (country a)) as [cc|]; [|simpl; lia].
    destruct (country_rules cc (strip p)).2; simpl; lia.
Qed.

(** With deduplication on, [written] is the size of [seen_phones]. *)
Lemma written_size_seen (a : args) (contacts : list contact) :
  dedupe a = Some Phone →
  written (main_loop a contacts) = size (seen_phones (main_loop a contacts)).
Proof.
  intros Hd. induction contacts as [|c before IH] using rev_ind; [done|].
  rewrite main_loop_snoc.
  pose proof (loop_body_cases a (main_loop a before) c) as H.
  rewrite Hd in H. cbn zeta in H.
  destruct (decide (phone_of a c ∈ seen_phones (main_loop a before)))
    as [Hin|Hnotin].
  - destruct H as [(-> & _ & _) ->]. done.
  - destruct H as [(-> & _ & _) ->].
    rewrite size_union by set_solver. rewrite size_singleton. lia.
Qed.

(** The first occurrence wins: with [dedupe=phone], a contact is written
    when no earlier contact has its normalised phone, and dropped as a
    duplicate when one has, however the two phones were spelled. *)
Theorem dedupe_keeps_first_occurrence
    (a : args) (before : list contact) (c : contact) :
  dedupe a = Some Phone →
  let s := main_loop a before in
  let s' := main_loop a (before ++ [c]) in
  (phone_of a c ∉ phone_of a <$> before → is_written a c s s')
  ∧ (phone_of a c ∈ phone_of a <$> before → is_duplicate s s').
Proof.
  intros Hd. cbn zeta. rewrite main_loop_snoc.
  pose proof (loop_body_cases a (main_loop a before) c) as H.
  cbn zeta in H. rewrite Hd, seen_phones_processed in H by done.
  destruct (decide _) as [Hin|Hnotin];
    rewrite elem_of_list_to_set in *; destruct H as [H _]; by split.
Qed.

Lemma dedupe_keeps_first_occurrence_witness :
  let a := {| name_mode := Both; country := Some (str "KE");
              dedupe := Some Phone; format := Csv |} in
  let c1 : contact := {[ str "phone_number" := PStr (str "0712345678") ]} in
  let c2 : contact := {[ str "phone_number" := PStr (str "+254712345678") ]} in
  is_duplicate (main_loop a [c1]) (main_loop a ([c1] ++ [c2])).
Proof.
  intros a c1 c2.
  apply (dedupe_keeps_first_occurrence a [c1] c2); [reflexivity|].
  apply list_elem_of_fmap. exists c1. split; [vm_compute; reflexivity|].
  apply list_elem_of_singleton. reflexivity.
Defined.

(** With [dedupe=phone], [written] is the number of distinct normalised
    phones of the input, and [seen_phones] is their set; the duplicates are
    the rest. *)
Theorem written_counts_distinct_phones
    (a : args) (contacts : list contact) :
  dedupe a = Some Phone →
  let st := main_loop a contacts in
  let phones : gset pyval := list_to_set (phone_of a <$> contacts) in
  seen_phones st = phones
  ∧ written st = size phones
  ∧ dupes st = length contacts - size phones.
Proof.
  intros Hd. cbn zeta.
  pose proof (seen_phones_processed a contacts Hd) as Hseen.
  pose proof (written_size_seen a contacts Hd) as Hw.
  destruct (main_loop_kept a contacts) as (_ & _ & _ & _ & Hsum & _).
  rewrite <- Hseen. split; [done|]. split; [done|]. lia.
Qed.

Lemma written_counts_distinct_phones_witness :
  let a := {| name_mode := Both; country := Some (str "KE");
              dedupe := Some Phone; format := Vcf |} in
  let c1 : contact := {[ str "phone_number" := PStr (str "0712345678") ]} in
  let c2 : contact := {[ str "phone_number" := PStr (str "712345678") ]} in
  let c3 : contact := {[ str "phone_number" := PStr (str "0722000000") ]} in
  written (main_loop a [c1; c2; c3])
  = size (list_to_set (phone_of a <$> [c1; c2; c3]) : gset pyval).
Proof.
  intros a c1 c2 c3.
  destruct (written_counts_distinct_phones a [c1; c2; c3]) as (_ & H & _);
    [reflexivity | exact H].
Defined.

Lemma main_loop_no_dedupe (a : args) (contacts : list contact) :
  out (main_loop (no_dedupe a) contacts)
  = out (init a) ++ contacts ≫= emit_contact a.
Proof.
  destruct (main_loop_kept (no_dedupe a) contacts)
    as (kept & _ & Ho & _ & _ & Hd).
  simpl in Hd. destruct Hd as [-> _]. exact Ho.
Qed.

(** Deduplication only removes records: the file written with
    [dedupe=phone] is a subsequence of the file written without it, so the
    header and the surviving records keep their content and their order. *)
Theorem dedupe_only_removes (a : args) (contacts : list contact) :
  sublist (out (main_loop a contacts))
          (out (main_loop (no_dedupe a) contacts)).
Proof.
  rewrite main_loop_no_dedupe.
  destruct (main_loop_kept a contacts) as (kept & Hs & -> & _).
  apply sublist_app; [done|]. by apply sublist_mbind.
Qed.

(** When the normalised phones of the input are pairwise distinct, nothing
    is dropped: no duplicate is counted, every contact is written, and the
    file is the one written without deduplication. *)
Theorem distinct_phones_all_written (a : args) (contacts : list contact) :
  NoDup (phone_of a <$> contacts) →
  let st := main_loop a contacts in
  dupes st = 0
  ∧ written st = length contacts
  ∧ out st = out (main_loop (no_dedupe a) contacts).
Proof.
  intros Hnd. cbn zeta. rewrite main_loop_no_dedupe.
  destruct (main_loop_kept a contacts) as (kept & Hs & Ho & Hw & Hsum & Hd).
  assert (written (main_loop a contacts) = length contacts) as Hall.
  { destruct (dedupe a) as [[]|] eqn:E; [|destruct Hd as [_ Hd]; lia].
    rewrite written_size_seen, seen_phones_processed by done.
    by rewrite size_list_to_set, length_fmap. }
  split; [lia|]. split; [done|].
  rewrite Ho. f_equal. f_equal. apply sublist_same_length; [done|]. lia.
Qed.

Lemma distinct_phones_all_written_witness :
  let a := {| name_mode := Both; country := Some (str "KE");
              dedupe := Some Phone; format := Csv |} in
  let c1 : contact := {[ str "phone_number" := PStr (str "0712345678") ]} in
  let c2 : contact := {[ str "phone_number" := PStr (str "0722000000") ]} in
  dupes (main_loop a [c1; c2]) = 0.
Proof.
  intros a c1 c2.
  destruct (distinct_phones_all_written a [c1; c2]) as [H _]; [|exact H].
  apply (bool_decide_unpack _). vm_compute. exact I.
Defined.

(** The two normalisation counters count every input contact whose phone
    set the flag, the contacts dropped as duplicates included: they are
    updated before the duplicate test. *)
Theorem normalisation_counters_count_all_contacts
    (a : args) (contacts : list contact) :
  let st := main_loop a contacts in
  normalized_00 st = length (filter (λ c, flag_00 a c = true) contacts)
  ∧ normalized_country st
    = length (filter (λ c, flag_country a c = true) contacts).
Proof.
  cbn zeta. induction contacts as [|c before [IH0 IHc]] using rev_ind;
    [done|].
  rewrite main_loop_snoc, !filter_app, !length_app.
  destruct (loop_body_counters a (main_loop a before) c) as [-> ->].
  rewrite IH0, IHc, !filter_cons, !filter_nil.
  destruct (flag_00 a c), (flag_country a c);
    repeat case_decide; done.
Qed.

(** No contact counts in both normalisation counters, so their sum is at
    most the number of input contacts. *)
Theorem normalisation_counters_bounded (a : args) (contacts : list contact) :
  let st := main_loop a contacts in
  normalized_00 st + normalized_country st ≤ length contacts.
Proof.
  cbn zeta. induction contacts as [|c before IH] using rev_ind;
    [simpl; lia|].
  rewrite main_loop_snoc, length_app.
  destruct (loop_body_counters a (main_loop a before) c) as [-> ->].
  pose proof (flags_exclusive a c). simpl. lia.
Qed.

(** The file has one write per CSV row, the header and one row per written
    contact, or six per vCard. *)
Theorem file_size_from_written (a : args) (contacts : list contact) :
  let st := main_loop a contacts in
  length (out st)
  = match format a with
    | Csv => 1 + written st
    | Vcf => 6 * written st
    end.
Proof.
  cbn zeta.
  destruct (main_loop_kept a contacts) as (kept & _ & -> & -> & _).
  rewrite length_app. unfold init. simpl.
  destruct (format a) eqn:Hf; simpl; f_equal.
  - rewrite csv_rows by done. by rewrite length_fmap.
  - induction kept as [|c kept IH]; [done|].
    rewrite bind_cons, length_app, IH. unfold emit_contact, emit.
    rewrite Hf. simpl. lia.
Qed.



(** ** The [FN] line *)

(** Only the right end of the [FN] line is trimmed: the line is [FN:]
    followed by the two names joined by a space, without the trailing
    whitespace of that text. Whitespace after the colon is kept. *)
Theorem fn_line_trims_right_only (first last : pyval) :
  fn_line first last
  = str "FN:" ++ rstrip (fmt first ++ str " " ++ fmt last) ++ nl.
Proof.
  unfold fn_line, strip.
  change (str "FN:" ++ ?x) with (70%N :: 78%N :: 58%N :: x).
  rewrite lstrip_head by done. by rewrite !rstrip_head by done.
Qed.

(** ** [main] *)


(** A run that completes has opened the output file first, made on it the
    writes of the loop and nothing else, and closed it last; the counters of
    its summary satisfy [written + duplicates = total]. *)
Theorem complete_run_summary
    (a : args) (input : option json) (trace : list io)
    (total : nat) (st : state) :
  main a input = (trace, Complete total st) →
  trace = open_out :: (file <$> out st) ++ [close_out]
  ∧ written st + dupes st = total.
Proof.
  unfold main. destruct input as [data|]; [|done].
  destruct (contacts_list data) as [[]|found]; [done..|].
  destruct (as_contacts found) as [contacts|]; [|done].
  intros [= <- <- <-]. split; [done|].
  by destruct (main_loop_kept a contacts) as (_ & _ & _ & _ & Hsum & _).
Qed.

Lemma complete_run_summary_witness :
  let a := {| name_mode := Both; country := Some (str "KE");
              dedupe := Some Phone; format := Csv |} in
  let record := JObj [(str "first_name", JStr (str "Ann"));
                      (str "phone_number", JStr (str "0712345678"))] in
  let data := JObj [(str "contacts", JObj [(str "list",
                                              JArr [record; record])])] in
  ∃ trace st,
    main a (Some data) = (trace, Complete 2 st)
    ∧ trace = open_out :: (file <$> out st) ++ [close_out]
    ∧ written st + dupes st = 2.
Proof.
  intros a record data. eexists _, _. split; [reflexivity|].
  eapply (complete_run_summary a (Some data)). reflexivity.
Defined.
